(** * The BASIS umbrella headers [sbia/basis.h] and [test.h]

    Both files consist of preprocessing directives only.  They are embedded
    as programs of a small error-and-state monad over the state of the
    translator while it preprocesses one translation unit: the macro table,
    the files marked [#pragma once], and the tokens handed on to the
    compiler proper. *)

From Stdlib Require Import ZArith.
From stdpp Require Import gmap strings list.

Local Open Scope string_scope.
Local Open Scope Z_scope.

(** ** Preprocessing tokens and translator state *)

(** The replacement list of a macro is a sequence of preprocessing tokens.
    [TNum z] is an integer constant of value [z] (a constant given with its
    sign, as in [-DHAVE_PTHREAD=-1], is kept as one value); [TPunct]
    covers the operators, the alternative spellings such as [not]
    included, so that [TIdent] is an identifier proper. *)
Inductive token : Type :=
| TNum (z : Z)
| TIdent (x : string)
| TStr (s : string)
| TPunct (p : string).

#[global] Instance token_eq_dec : EqDecision token.
Proof. solve_decision. Defined.

(** The macro table holds every macro there is at this point of the
    translation unit, the predefined ones included. *)
Record pp_state : Type := PPState {
  macros : gmap string (list token);
  once : gset string;
  emitted : list token
}.

(** Diagnostics that stop the translation.  Warnings, which do not, are
    not recorded. *)
Inductive pp_error : Type :=
| if_without_expression
| if_invalid_expression (ts : list token)
| error_directive (msg : string).

Inductive outcome (A : Type) : Type :=
| Done (a : A) (s : pp_state)
| Failed (e : pp_error).
Arguments Done {A} a s.
Arguments Failed {A} e.

(** A directive (or a group of them) transforms the state or stops the
    translation with a diagnostic. *)
Definition pp (A : Type) : Type := pp_state → outcome A.

#[global] Instance pp_ret : MRet pp := λ A a s, Done a s.

#[global] Instance pp_bind : MBind pp := λ A B f m s,
  match m s with
  | Done a s' => f a s'
  | Failed e => Failed e
  end.

Definition skip : pp unit := mret ().

(** The state a group leaves behind, when it completes. *)
Definition final {A : Type} (r : outcome A) : option pp_state :=
  match r with
  | Done _ s => Some s
  | Failed _ => None
  end.

(** ** Macro replacement *)

(** Rescanning of object-like macros: an identifier naming a macro is
    replaced by the macro's replacement list, which is rescanned with that
    name no longer available for replacement.  Every nested replacement
    hides one more defined name, so the nesting depth never exceeds the
    number of macros and [size] of the table is enough fuel. *)
Fixpoint expand (fuel : nat) (m : gmap string (list token))
    (hide : gset string) (t : token) : list token :=
  match t with
  | TIdent x =>
      if decide (x ∈ hide) then [t]
      else match m !! x with
           | None => [t]
           | Some body =>
               match fuel with
               | O => [t]
               | S n => flat_map (expand n m (hide ∪ {[x]})) body
               end
           end
  | _ => [t]
  end.

Definition expand_all (m : gmap string (list token)) (ts : list token)
    : list token :=
  flat_map (expand (size m) m ∅) ts.

(** ** The controlling expression of [#if] *)

(** [#if] computes in 64 bits: of an integer constant it keeps the low 64
    bits, so that 18446744073709551616 is read as 0. *)
Definition wrap64 (z : Z) : Z := z mod 18446744073709551616.

(** Identifiers that are operators where [#if] is concerned: [defined],
    and the alternative spellings of C++.  None is an expression on its
    own. *)
Definition if_operator_name (x : string) : bool :=
  bool_decide (x ∈ ["defined"; "and"; "and_eq"; "bitand"; "bitor"; "compl";
                    "not"; "not_eq"; "or"; "or_eq"; "xor"; "xor_eq"]).

(** Identifiers that begin with an underscore belong to the translator,
    which may know them as macros or as operators of its own
    ([__has_include] and the like). *)
Definition reserved_name (x : string) : bool := String.prefix "_" x.

Section Translator.

(** Value of a controlling expression of two or more tokens, or of a lone
    reserved identifier, after macro replacement ([None]: the translation
    stops there).  Neither header writes such an expression; one can only
    come out of the replacement list of a macro defined elsewhere, and
    nothing is assumed about it. *)
Variable constant_expression : list token → option Z.

(** The controlling expression of [#if], after macro replacement.  The
    headers are C++: of the identifiers left over, [true] counts as 1; an
    operator name is no expression; every other identifier that is not
    reserved counts as 0. *)
Definition controlling_value (ts : list token) : pp_error + Z :=
  match ts with
  | [] => inl if_without_expression
  | [TNum z] => inr (wrap64 z)
  | [TIdent x] =>
      if decide (x = "true") then inr 1
      else if if_operator_name x then inl (if_invalid_expression ts)
      else if reserved_name x then
        match constant_expression ts with
        | Some z => inr z
        | None => inl (if_invalid_expression ts)
        end
      else inr 0
  | [TStr _] | [TPunct _] => inl (if_invalid_expression ts)
  | _ =>
      match constant_expression ts with
      | Some z => inr z
      | None => inl (if_invalid_expression ts)
      end
  end.

(** ** Directives *)

Definition pp_defined (x : string) : pp bool :=
  λ s, Done (bool_decide (is_Some (macros s !! x))) s.

Definition pp_condition (ts : list token) : pp bool :=
  λ s, match controlling_value (expand_all (macros s) ts) with
       | inr z => Done (negb (z =? 0)) s
       | inl e => Failed e
       end.

(** [#define x body]: a macro defined again takes the new replacement
    list; the translator remarks on it with a warning and goes on. *)
Definition pp_define (x : string) (body : list token) : pp unit :=
  λ s, Done () (PPState (<[x := body]> (macros s)) (once s) (emitted s)).

Definition pp_undef (x : string) : pp unit :=
  λ s, Done () (PPState (delete x (macros s)) (once s) (emitted s)).

Definition pp_pragma_once (file : string) : pp unit :=
  λ s, Done () (PPState (macros s) ({[file]} ∪ once s) (emitted s)).

Definition pp_ifdef (x : string) (group : pp unit) : pp unit :=
  pp_defined x ≫= λ d : bool, if d then group else skip.

Definition pp_ifndef (x : string) (group : pp unit) : pp unit :=
  pp_defined x ≫= λ d : bool, if d then skip else group.

Definition pp_if (ts : list token) (group else_group : pp unit) : pp unit :=
  pp_condition ts ≫= λ c : bool, if c then group else else_group.

(** [#include] of a file whose text is [body]: skipped when the file was
    marked [#pragma once] earlier in the translation unit. *)
Definition pp_include (file : string) (body : pp unit) : pp unit :=
  λ s, if decide (file ∈ once s) then Done () s else body s.

(** ** test.h, lines 29 to 46: the two feature flags *)

Definition HAVE_TR1_TUPLE : string := "HAVE_TR1_TUPLE".
Definition HAVE_PTHREAD : string := "HAVE_PTHREAD".
Definition GTEST_USE_OWN_TR1_TUPLE : string := "GTEST_USE_OWN_TR1_TUPLE".
Definition GTEST_HAS_PTHREAD : string := "GTEST_HAS_PTHREAD".
Definition SBIA_BASIS_TEST_H_ : string := "SBIA_BASIS_TEST_H_".
Definition SBIA_BASIS_H_ : string := "SBIA_BASIS_H_".

Definition resolve_tr1_tuple : pp unit :=
  pp_ifdef GTEST_USE_OWN_TR1_TUPLE
    (pp_undef GTEST_USE_OWN_TR1_TUPLE) ;;
  pp_if [TIdent HAVE_TR1_TUPLE]
    (pp_define GTEST_USE_OWN_TR1_TUPLE [TNum 0])
    (pp_define GTEST_USE_OWN_TR1_TUPLE [TNum 1]).

Definition resolve_pthread : pp unit :=
  pp_ifdef GTEST_HAS_PTHREAD
    (pp_undef GTEST_HAS_PTHREAD) ;;
  pp_if [TIdent HAVE_PTHREAD]
    (pp_define GTEST_HAS_PTHREAD [TNum 1])
    (pp_define GTEST_HAS_PTHREAD [TNum 0]).

Definition resolver : pp unit :=
  resolve_tr1_tuple ;; resolve_pthread.

(** ** The two headers as a whole *)

(** The included files belong to other parts of the toolkit and to other
    libraries; each is taken as an arbitrary group. *)
Variables config_h gtest_h gmock_h cmdline_h path_h : pp unit.

Definition test_h_file : string := "test.h".
Definition basis_h_file : string := "sbia/basis.h".

Definition test_h : pp unit :=
  pp_pragma_once test_h_file ;;
  pp_ifndef SBIA_BASIS_TEST_H_
    (pp_define SBIA_BASIS_TEST_H_ [] ;;
     pp_include "sbia/basis/config.h" config_h ;;
     resolver ;;
     pp_include "sbia/basis/gtest/gtest.h" gtest_h ;;
     pp_include "sbia/basis/gmock/gmock.h" gmock_h).

Definition basis_h : pp unit :=
  pp_pragma_once basis_h_file ;;
  pp_ifndef SBIA_BASIS_H_
    (pp_define SBIA_BASIS_H_ [] ;;
     pp_include "sbia/tclap/CmdLine.h" cmdline_h ;;
     pp_include "sbia/basis/config.h" config_h ;;
     pp_include "sbia/basis/path.h" path_h).

End Translator.

(** A translator that rejects every compound controlling expression, for
    running the headers on concrete macro tables. *)
Definition reject_compound : list token → option Z := λ _, None.

(** ** Vocabulary of the specification *)

(** What the build configuration says about an input flag: nothing, or an
    integer. *)
Inductive setting : Type :=
| Unset
| SetTo (z : Z).

Definition flag_body (a : setting) : option (list token) :=
  match a with
  | Unset => None
  | SetTo z => Some [TNum z]
  end.

Definition truth (a : setting) : bool :=
  match a with
  | Unset => false
  | SetTo z => negb (z =? 0)
  end.

(** Integers that [#if] computes with as they are: the 64-bit signed
    range, ends excluded. *)
Definition representable (a : setting) : Prop :=
  match a with
  | Unset => True
  | SetTo z => -9223372036854775808 < z < 9223372036854775808
  end.

(** What [#if FLAG] makes of a setting, in 64 bits. *)
Definition reads (a : setting) : bool :=
  match a with
  | Unset => false
  | SetTo z => negb (wrap64 z =? 0)
  end.

(** The table of section 8 of the specification, row by row:
    (GTEST_USE_OWN_TR1_TUPLE, GTEST_HAS_PTHREAD). *)
Definition truth_table (have_tr1_tuple have_pthread : bool) : Z * Z :=
  match have_tr1_tuple, have_pthread with
  | true, true => (0, 1)
  | true, false => (0, 0)
  | false, true => (1, 1)
  | false, false => (1, 0)
  end.

(** How [#if FLAG] reads an input flag that is undefined or an integer
    constant. *)
Inductive reads_as (m : gmap string (list token)) (flag : string)
    : bool → Prop :=
| reads_undefined :
    m !! flag = None → reads_as m flag false
| reads_integer z :
    m !! flag = Some [TNum z] → reads_as m flag (negb (wrap64 z =? 0)).

(** A name [#if] reads as 0 when it is not a macro. *)
Definition plain_name (x : string) : Prop :=
  x ≠ "true" ∧ if_operator_name x = false ∧ reserved_name x = false.

Definition literal (b : bool) : list token := [TNum (Z.b2z b)].

(** The state with one macro defined, redefined or removed. *)
Definition set_macro (x : string) (body : option (list token))
    (s : pp_state) : pp_state :=
  PPState (match body with
           | Some ts => <[x := ts]> (macros s)
           | None => delete x (macros s)
           end) (once s) (emitted s).

(** The state the resolver is to leave behind when [#if HAVE_TR1_TUPLE]
    reads [tuple] and [#if HAVE_PTHREAD] reads [pthread]. *)
Definition resolved (tuple pthread : bool) (s : pp_state) : pp_state :=
  set_macro GTEST_HAS_PTHREAD (Some (literal pthread))
    (set_macro GTEST_USE_OWN_TR1_TUPLE (Some (literal (negb tuple))) s).

Definition output_flags (s : pp_state)
    : option (list token) * option (list token) :=
  (macros s !! GTEST_USE_OWN_TR1_TUPLE, macros s !! GTEST_HAS_PTHREAD).

Definition outputs (r : outcome unit)
    : option (option (list token) * option (list token)) :=
  output_flags <$> final r.

Definition table_outputs (have_tr1_tuple have_pthread : bool)
    : option (list token) * option (list token) :=
  let '(own_tuple, has_pthread) := truth_table have_tr1_tuple have_pthread in
  (Some [TNum own_tuple], Some [TNum has_pthread]).

Definition zero_or_one (s : pp_state) (x : string) : Prop :=
  macros s !! x = Some [TNum 0] ∨ macros s !! x = Some [TNum 1].

(** [s'] differs from [s] at most in the [#pragma once] marks and in the
    macros named in [names]: no token was handed to the compiler and no
    other macro was touched. *)
Definition changes_only (names : gset string) (s s' : pp_state) : Prop :=
  emitted s' = emitted s ∧ once s ⊆ once s' ∧
  ∀ x, x ∉ names → macros s' !! x = macros s !! x.

(** An included file that leaves the include guard of test.h alone. *)
Definition keeps_guard (h : pp unit) : Prop :=
  ∀ s s', h s = Done () s' →
    is_Some (macros s !! SBIA_BASIS_TEST_H_) →
    is_Some (macros s' !! SBIA_BASIS_TEST_H_).

(** ** Macro tables to run the headers on *)

Definition initial (table : list (string * list token)) : pp_state :=
  PPState (list_to_map table) ∅ [].

(** [#define HAVE_TR1_TUPLE 1] and [#define HAVE_PTHREAD 0]. *)
Definition tuple_without_pthread : pp_state :=
  initial [(HAVE_TR1_TUPLE, [TNum 1]); (HAVE_PTHREAD, [TNum 0])].

(** As before, with both output flags already defined the other way. *)
Definition predefined_outputs : pp_state :=
  initial [(HAVE_TR1_TUPLE, [TNum 1]); (HAVE_PTHREAD, [TNum 0]);
           (GTEST_USE_OWN_TR1_TUPLE, [TNum 1]); (GTEST_HAS_PTHREAD, [TNum 1])].

(** [#define HAVE_PTHREAD] with an empty replacement list, as a build
    configuration writes it that only records that the library exists. *)
Definition pthread_defined_empty : pp_state :=
  initial [(HAVE_TR1_TUPLE, [TNum 1]); (HAVE_PTHREAD, [])].

(** [#define HAVE_PTHREAD "yes"]. *)
Definition pthread_string_literal : pp_state :=
  initial [(HAVE_PTHREAD, [TStr "yes"])].

(** [#define HAVE_PTHREAD true]. *)
Definition pthread_keyword_true : pp_state :=
  initial [(HAVE_PTHREAD, [TIdent "true"])].

(** [#define HAVE_PTHREAD YES] where [YES] is a macro for 1, and where it
    is not a macro at all. *)
Definition pthread_named_constant : pp_state :=
  initial [(HAVE_PTHREAD, [TIdent "YES"]); ("YES", [TNum 1])].

Definition pthread_name_only : pp_state :=
  initial [(HAVE_PTHREAD, [TIdent "YES"])].


(** [#define HAVE_PTHREAD 18446744073709551616]. *)
Definition pthread_two_to_64 : pp_state :=
  initial [(HAVE_PTHREAD, [TNum 18446744073709551616])].


(** The state test.h leaves behind when entered in [tuple_without_pthread]
    with included files that define nothing. *)
Definition tuple_without_pthread_tested : pp_state :=
  PPState
    (list_to_map
       [(HAVE_TR1_TUPLE, [TNum 1]); (HAVE_PTHREAD, [TNum 0]);
        (SBIA_BASIS_TEST_H_, []);
        (GTEST_USE_OWN_TR1_TUPLE, [TNum 0]); (GTEST_HAS_PTHREAD, [TNum 0])])
    {[test_h_file]} [].

(** ** Vocabulary for the headers as a whole *)

(** The state in which the body of a guarded header is entered: the file
    is marked [#pragma once] and its guard is defined, with an empty
    replacement list. *)
Definition entered (file guard : string) (s : pp_state) : pp_state :=
  PPState (<[guard := []]> (macros s)) ({[file]} ∪ once s) (emitted s).

(** An included file that leaves the macro [x] defined when it was, and
    one that takes back no [#pragma once] mark. *)
Definition keeps_defined (x : string) (h : pp unit) : Prop :=
  ∀ s s', h s = Done () s' →
    is_Some (macros s !! x) → is_Some (macros s' !! x).

Definition keeps_once (h : pp unit) : Prop :=
  ∀ s s', h s = Done () s' → once s ⊆ once s'.

(** An included file that undefines neither guard and takes back no
    mark. *)
Definition keeps_guards_and_marks (h : pp unit) : Prop :=
  keeps_defined SBIA_BASIS_TEST_H_ h ∧ keeps_defined SBIA_BASIS_H_ h ∧
  keeps_once h.

(** Replacement lists that are no expression at all: nothing, a lone
    string literal, a lone operator. *)
Definition not_an_expression (body : list token) : Prop :=
  match body with
  | [] | [TStr _] | [TPunct _] => True
  | _ => False
  end.

(** A diagnostic of [#if], as opposed to one raised by another
    directive. *)
Definition if_diagnostic (e : pp_error) : Prop :=
  e = if_without_expression ∨ ∃ ts, e = if_invalid_expression ts.

(** Stand-ins for included files, to run the headers: a config.h that
    consists of [#define HAVE_TR1_TUPLE 0] and [#define HAVE_PTHREAD 1],
    and a file the translation stops in. *)
Definition config_with_pthread : pp unit :=
  pp_define HAVE_TR1_TUPLE [TNum 0] ;; pp_define HAVE_PTHREAD [TNum 1].

Definition broken_file : pp unit := λ _, Failed (error_directive "X").


(** The state [config_with_pthread] leaves behind when test.h is entered
    with no macro at all, and the state test.h then ends in. *)
Definition configured : pp_state :=
  PPState
    (list_to_map
       [(SBIA_BASIS_TEST_H_, []);
        (HAVE_TR1_TUPLE, [TNum 0]); (HAVE_PTHREAD, [TNum 1])])
    {[test_h_file]} [].

Definition configured_and_tested : pp_state :=
  PPState
    (list_to_map
       [(SBIA_BASIS_TEST_H_, []);
        (HAVE_TR1_TUPLE, [TNum 0]); (HAVE_PTHREAD, [TNum 1]);
        (GTEST_USE_OWN_TR1_TUPLE, [TNum 1]); (GTEST_HAS_PTHREAD, [TNum 1])])
    {[test_h_file]} [].

(** The state basis.h leaves behind when entered with no macro at all and
    [config_with_pthread] for config.h. *)
Definition configured_basis : pp_state :=
  PPState
    (list_to_map
       [(SBIA_BASIS_H_, []);
        (HAVE_TR1_TUPLE, [TNum 0]); (HAVE_PTHREAD, [TNum 1])])
    {[basis_h_file]} [].

(** * Properties *)

(** ** The monad *)

Lemma bind_done {A B : Type} (m : pp A) (f : A → pp B) s a s' :
  m s = Done a s' → (m ≫= f) s = f a s'.
Proof. intros H. unfold mbind, pp_bind. by rewrite H. Qed.

Lemma bind_inv {A B : Type} (m : pp A) (f : A → pp B) s b s' :
  (m ≫= f) s = Done b s' → ∃ a s1, m s = Done a s1 ∧ f a s1 = Done b s'.
Proof.
  unfold mbind, pp_bind. destruct (m s) as [a s1|e]; [eauto | discriminate].
Qed.

Lemma set_macro_state s : PPState (macros s) (once s) (emitted s) = s.
Proof. by destruct s. Qed.

(** ** Macro replacement of a single flag *)

Lemma size_lookup_pos (m : gmap string (list token)) x body :
  m !! x = Some body → ∃ n, size m = S n.
Proof.
  intros Hx. destruct (size m) as [|n] eqn:Hsize; [|eauto].
  apply map_size_empty_inv in Hsize. subst m. by rewrite lookup_empty in Hx.
Qed.

Lemma expand_all_undefined (m : gmap string (list token)) x :
  m !! x = None → expand_all m [TIdent x] = [TIdent x].
Proof.
  intros Hx. unfold expand_all. simpl.
  destruct (size m); simpl; rewrite decide_False by set_solver;
    by rewrite Hx.
Qed.

Lemma expand_all_integer (m : gmap string (list token)) x z :
  m !! x = Some [TNum z] → expand_all m [TIdent x] = [TNum z].
Proof.
  intros Hx. unfold expand_all.
  destruct (size_lookup_pos m x _ Hx) as [n ->]. simpl.
  rewrite decide_False by set_solver. rewrite Hx. by destruct n.
Qed.

Lemma expand_all_plain_identifier (m : gmap string (list token)) x y :
  m !! x = Some [TIdent y] → m !! y = None →
  expand_all m [TIdent x] = [TIdent y].
Proof.
  intros Hx Hy. unfold expand_all.
  destruct (size_lookup_pos m x _ Hx) as [n ->]. simpl.
  rewrite decide_False by set_solver. rewrite Hx. simpl.
  assert (expand n m (∅ ∪ {[x]}) (TIdent y) = [TIdent y]) as ->; [|done].
  destruct n; simpl; case_decide; by rewrite ?Hy.
Qed.

(** ** Fuel *)

(** Macro replacement does not depend on the fuel once there is one unit
    of it for each macro that is not hidden; in particular [size m] units
    are as good as any larger amount. *)
Lemma expand_fuel (m : gmap string (list token)) n :
  ∀ k hide t,
    (size (dom m ∖ hide) ≤ n)%nat → (size (dom m ∖ hide) ≤ k)%nat →
    expand n m hide t = expand k m hide t.
Proof.
  induction n as [|n IH]; intros k hide t Hn Hk.
  - destruct t as [|x| |]; try by destruct k.
    assert (dom m ∖ hide = ∅) as Hempty.
    { apply leibniz_equiv, size_empty_inv. lia. }
    simpl. destruct k; simpl; case_decide as Hh; try done.
    destruct (m !! x) eqn:Hx; [|done].
    exfalso. assert (x ∈ dom m ∖ hide) as Hin.
    { apply elem_of_difference. split; [by apply elem_of_dom | done]. }
    rewrite Hempty in Hin. set_solver.
  - destruct t as [|x| |]; try by destruct k.
    simpl. case_decide as Hh.
    { destruct k; simpl; by rewrite decide_True. }
    destruct (m !! x) as [body|] eqn:Hx.
    2:{ destruct k; simpl; rewrite decide_False by done; by rewrite Hx. }
    assert (size (dom m ∖ (hide ∪ {[x]})) < size (dom m ∖ hide))%nat
      as Hless.
    { apply subset_size. apply strict_spec_alt. split.
      - intros y. rewrite !elem_of_difference, elem_of_union.
        intros [Hy Hn']. split; [done|]. intros Hy'. apply Hn'. by left.
      - intros Heq. assert (x ∈ dom m ∖ hide) as Hin.
        { apply elem_of_difference. split; [by apply elem_of_dom | done]. }
        rewrite <- Heq in Hin. apply elem_of_difference in Hin as [_ Hin].
        apply Hin, elem_of_union_r, elem_of_singleton. done. }
    destruct k as [|k]; [lia|]. simpl.
    rewrite decide_False by done. rewrite Hx.
    clear Hx. induction body as [|t' body IHbody]; [done|]. simpl.
    rewrite IHbody. f_equal. apply IH; lia.
Qed.

Lemma expand_all_fuel (m : gmap string (list token)) n ts :
  (size m ≤ n)%nat → flat_map (expand n m ∅) ts = expand_all m ts.
Proof.
  intros Hn. unfold expand_all.
  assert (size (dom m ∖ (∅ : gset string)) ≤ size m)%nat as Hd.
  { rewrite <- size_dom. apply subseteq_size, subseteq_difference_l. done. }
  induction ts as [|t ts IH]; [done|]. simpl. rewrite IH. f_equal.
  apply expand_fuel; lia.
Qed.

(** ** Directives of the resolver *)

Section Resolver.

Context (ce : list token → option Z).

(** Lines 29-31 and 39-41: whatever the flag was, it is undefined after. *)
Lemma guarded_undef x s :
  pp_ifdef x (pp_undef x) s = Done () (set_macro x None s).
Proof.
  unfold pp_ifdef. erewrite bind_done by reflexivity.
  case_bool_decide as Hdef; [done|].
  unfold skip, mret, pp_ret, set_macro. f_equal.
  rewrite delete_id; [by rewrite set_macro_state|].
  by apply eq_None_not_Some.
Qed.

Lemma define_fresh x body s :
  macros s !! x = None →
  pp_define x body s = Done () (set_macro x (Some body) s).
Proof. intros Hx. reflexivity. Qed.

Lemma condition_reads s flag b :
  plain_name flag → reads_as (macros s) flag b →
  pp_condition ce [TIdent flag] s = Done b s.
Proof.
  intros (Htrue & Hoperator & Hreserved) Hr. unfold pp_condition.
  destruct Hr as [Hx | z Hx].
  - rewrite expand_all_undefined by done. simpl.
    by rewrite decide_False, Hoperator, Hreserved.
  - by rewrite (expand_all_integer _ _ z).
Qed.

Lemma plain_name_flags : plain_name HAVE_TR1_TUPLE ∧ plain_name HAVE_PTHREAD.
Proof. by repeat split. Qed.

(** What [#if FLAG] reads is not affected by the output flags coming and
    going. *)
Lemma reads_as_delete m x flag b :
  flag ≠ x → reads_as m flag b → reads_as (delete x m) flag b.
Proof.
  intros Hne [Hx | z Hx].
  - apply reads_undefined. by rewrite lookup_delete_ne.
  - apply reads_integer. by rewrite lookup_delete_ne.
Qed.

Lemma reads_as_own_tuple m flag b body :
  flag ≠ GTEST_USE_OWN_TR1_TUPLE → reads_as m flag b →
  reads_as (<[GTEST_USE_OWN_TR1_TUPLE := body]> m) flag b.
Proof.
  intros Hne [Hx | z Hx].
  - apply reads_undefined. by rewrite lookup_insert_ne.
  - apply reads_integer. by rewrite lookup_insert_ne.
Qed.

Lemma reads_as_setting m flag a :
  m !! flag = flag_body a → reads_as m flag (reads a).
Proof.
  destruct a as [|z]; simpl; intros Hx.
  - by apply reads_undefined.
  - by apply reads_integer.
Qed.

(** One block of the resolver: the guarded [#undef] followed by the
    [#if]/[#else] pair of [#define]s. *)
Lemma flag_block x flag on off s b :
  plain_name flag → flag ≠ x →
  reads_as (macros s) flag b →
  (pp_ifdef x (pp_undef x) ;;
   pp_if ce [TIdent flag] (pp_define x on) (pp_define x off)) s
  = Done () (set_macro x (Some (if b then on else off)) s).
Proof.
  intros Hflag Hne Hr.
  erewrite bind_done by apply guarded_undef.
  unfold pp_if.
  erewrite bind_done.
  2:{ apply condition_reads; [done|]. simpl. by apply reads_as_delete. }
  assert (macros (set_macro x None s) !! x = None) as Hfresh
    by apply lookup_delete_eq.
  destruct b; rewrite define_fresh by done;
    unfold set_macro; simpl; by rewrite insert_delete_eq.
Qed.

(** Without knowing what [#if FLAG] reads, a block that completes has
    still installed one of its two bodies. *)
Lemma flag_block_inv x flag on off s s' :
  (pp_ifdef x (pp_undef x) ;;
   pp_if ce [TIdent flag] (pp_define x on) (pp_define x off)) s
  = Done () s' →
  ∃ b : bool, s' = set_macro x (Some (if b then on else off)) s.
Proof.
  intros Hrun.
  erewrite bind_done in Hrun by apply guarded_undef.
  unfold pp_if in Hrun.
  apply bind_inv in Hrun as (c & s1 & Hc & Hdef).
  unfold pp_condition in Hc.
  destruct (controlling_value _ _) as [e|z]; [discriminate|].
  injection Hc as <- <-. exists (negb (z =? 0)).
  assert (macros (set_macro x None s) !! x = None) as Hfresh
    by apply lookup_delete_eq.
  destruct (negb (z =? 0)); rewrite define_fresh in Hdef by done;
    injection Hdef as <-; unfold set_macro; simpl;
    by rewrite insert_delete_eq.
Qed.

Lemma resolver_reads s tuple pthread :
  reads_as (macros s) HAVE_TR1_TUPLE tuple →
  reads_as (macros s) HAVE_PTHREAD pthread →
  resolver ce s = Done () (resolved tuple pthread s).
Proof.
  intros Ht Hp. unfold resolver.
  destruct plain_name_flags as [Hplain_tuple Hplain_pthread].
  erewrite bind_done.
  2:{ unfold resolve_tr1_tuple. by apply (flag_block _ _ _ _ _ tuple). }
  unfold resolve_pthread.
  erewrite (flag_block _ _ _ _ _ pthread); try done.
  - unfold resolved, literal. by destruct tuple, pthread.
  - simpl. by apply reads_as_own_tuple.
Qed.

Lemma resolver_settings s a b :
  macros s !! HAVE_TR1_TUPLE = flag_body a →
  macros s !! HAVE_PTHREAD = flag_body b →
  resolver ce s = Done () (resolved (reads a) (reads b) s).
Proof. intros Ha Hb. by apply resolver_reads; apply reads_as_setting. Qed.

(** Within the 64-bit signed range [#if] reads an integer as it is. *)
Lemma reads_representable a : representable a → reads a = truth a.
Proof.
  destruct a as [|z]; [done|]. simpl. unfold wrap64. intros Hz.
  destruct (Z.eqb_spec z 0) as [->|Hne]; [done|].
  destruct (Z.eqb_spec (z mod 18446744073709551616) 0) as [Hmod|]; [|done].
  exfalso. apply Hne.
  pose proof (Z.div_mod z 18446744073709551616) as Hdiv. lia.
Qed.

Lemma resolver_settings_representable s a b :
  macros s !! HAVE_TR1_TUPLE = flag_body a →
  macros s !! HAVE_PTHREAD = flag_body b →
  representable a → representable b →
  resolver ce s = Done () (resolved (truth a) (truth b) s).
Proof.
  intros Ha Hb Hra Hrb.
  rewrite (resolver_settings s a b) by done.
  by rewrite !reads_representable.
Qed.

Lemma resolved_outputs tuple pthread s :
  output_flags (resolved tuple pthread s) = table_outputs tuple pthread.
Proof.
  unfold output_flags, resolved, set_macro, table_outputs. simpl.
  rewrite lookup_insert_eq, lookup_insert_ne by done.
  rewrite lookup_insert_eq. by destruct tuple, pthread.
Qed.

End Resolver.

(** ** The feature-flag resolver *)

Section ResolverClaims.

Context (ce : list token → option Z).



Lemma set_macro_other x body s y :
  y ≠ x → macros (set_macro x body s) !! y = macros s !! y.
Proof.
  intros Hne. unfold set_macro. simpl.
  destruct body; [by rewrite lookup_insert_ne | by rewrite lookup_delete_ne].
Qed.

(** C1. When the two inputs are the booleans [tuple] and [pthread]
    (defined as 1 for true and as 0 for false), the resolver completes
    with GTEST_USE_OWN_TR1_TUPLE and GTEST_HAS_PTHREAD as the row of the
    four-row table for these inputs says, and that row is the negation of
    [tuple] and [pthread] itself. *)
Theorem resolver_truth_table s (tuple pthread : bool) :
  macros s !! HAVE_TR1_TUPLE = Some (literal tuple) →
  macros s !! HAVE_PTHREAD = Some (literal pthread) →
  outputs (resolver ce s) = Some (table_outputs tuple pthread) ∧
  truth_table tuple pthread = (Z.b2z (negb tuple), Z.b2z pthread).
Proof.
  intros Ht Hp.
  rewrite (resolver_settings ce s (SetTo (Z.b2z tuple)) (SetTo (Z.b2z pthread)))
    by done.
  unfold outputs. simpl. rewrite resolved_outputs.
  by destruct tuple, pthread.
Qed.

(** Every state in which the resolver completes has both output flags
    defined as the literal 0 or the literal 1. *)
Lemma resolver_done_zero_or_one s s' :
  resolver ce s = Done () s' →
  zero_or_one s' GTEST_USE_OWN_TR1_TUPLE ∧ zero_or_one s' GTEST_HAS_PTHREAD.
Proof.
  intros Hrun. unfold resolver in Hrun.
  apply bind_inv in Hrun as ([] & s1 & Htuple & Hpthread).
  apply flag_block_inv in Htuple as [t ->].
  apply flag_block_inv in Hpthread as [p ->].
  unfold zero_or_one. rewrite set_macro_other by done.
  unfold set_macro. simpl. rewrite !lookup_insert_eq.
  destruct t, p; auto.
Qed.

(** C2, amended. In every state in which each input flag is undefined or
    defined as an integer constant, of any value, the resolver completes
    and leaves each output flag defined as exactly the literal 0 or the
    literal 1; and in whatever state the resolver completes, the output
    flags hold no other value. *)
Theorem outputs_zero_or_one s :
  (∀ a b,
     macros s !! HAVE_TR1_TUPLE = flag_body a →
     macros s !! HAVE_PTHREAD = flag_body b →
     ∃ s', resolver ce s = Done () s' ∧
       zero_or_one s' GTEST_USE_OWN_TR1_TUPLE ∧
       zero_or_one s' GTEST_HAS_PTHREAD) ∧
  (∀ s', resolver ce s = Done () s' →
     zero_or_one s' GTEST_USE_OWN_TR1_TUPLE ∧
     zero_or_one s' GTEST_HAS_PTHREAD).
Proof.
  split; [|apply resolver_done_zero_or_one].
  intros a b Ha Hb. eexists. split; [by apply resolver_settings|].
  by eapply resolver_done_zero_or_one, resolver_settings.
Qed.




(** C6. For every combination of the two inputs, each undefined or an
    integer (both undefined included), the resolver completes, without a
    diagnostic, in a state where both output flags are defined. *)
Theorem resolver_total s a b :
  macros s !! HAVE_TR1_TUPLE = flag_body a →
  macros s !! HAVE_PTHREAD = flag_body b →
  ∃ s', resolver ce s = Done () s' ∧
        is_Some (macros s' !! GTEST_USE_OWN_TR1_TUPLE) ∧
        is_Some (macros s' !! GTEST_HAS_PTHREAD).
Proof.
  intros Ha Hb. eexists. split; [by apply resolver_settings|].
  unfold resolved, set_macro. simpl.
  rewrite lookup_insert_eq, lookup_insert_ne by done.
  rewrite lookup_insert_eq. eauto.
Qed.

(** C7, amended. Two runs of the resolver in states in which
    HAVE_TR1_TUPLE and HAVE_PTHREAD are each undefined or defined as an
    integer constant, the same in both states, both complete and end with
    equal output flags, however the two states differ in every other
    macro, in the earlier definitions of the output flags, in the
    [#pragma once] marks and in the tokens emitted so far. *)
Theorem resolver_depends_on_inputs_only s1 s2 a b :
  macros s1 !! HAVE_TR1_TUPLE = flag_body a →
  macros s2 !! HAVE_TR1_TUPLE = flag_body a →
  macros s1 !! HAVE_PTHREAD = flag_body b →
  macros s2 !! HAVE_PTHREAD = flag_body b →
  outputs (resolver ce s1) = outputs (resolver ce s2) ∧
  is_Some (outputs (resolver ce s1)).
Proof.
  intros Ha1 Ha2 Hb1 Hb2.
  rewrite !(resolver_settings ce _ a b) by done.
  unfold outputs. simpl. rewrite !resolved_outputs. eauto.
Qed.


End ResolverClaims.

(** ** The headers as a whole *)

Section Headers.

Context (ce : list token → option Z).
Context (config_h gtest_h gmock_h cmdline_h path_h : pp unit).

Lemma changes_only_set_macro x body s (names : gset string) :
  x ∈ names → changes_only names s (set_macro x body s).
Proof.
  intros Hx. unfold changes_only. simpl. repeat split; [done|].
  intros y Hy. apply set_macro_other. set_solver.
Qed.

Lemma changes_only_trans (names : gset string) s1 s2 s3 :
  changes_only names s1 s2 → changes_only names s2 s3 →
  changes_only names s1 s3.
Proof.
  intros (He1 & Ho1 & Hm1) (He2 & Ho2 & Hm2). repeat split.
  - congruence.
  - by transitivity (once s2).
  - intros x Hx. rewrite Hm2, Hm1; done.
Qed.

(** The resolver touches the two output flags and nothing else, whatever
    the input flags look like. *)
Lemma resolver_frame s s' :
  resolver ce s = Done () s' →
  changes_only {[GTEST_USE_OWN_TR1_TUPLE; GTEST_HAS_PTHREAD]} s s'.
Proof.
  intros Hrun. unfold resolver in Hrun.
  apply bind_inv in Hrun as ([] & s1 & Htuple & Hpthread).
  apply flag_block_inv in Htuple as [t ->].
  apply flag_block_inv in Hpthread as [p ->].
  eapply changes_only_trans; apply changes_only_set_macro; set_solver.
Qed.

(** [#pragma once], [#ifndef GUARD], [#define GUARD]: the opening of both
    headers. *)
Lemma guarded_header file guard body s :
  (pp_pragma_once file ;; pp_ifndef guard (pp_define guard [] ;; body)) s
  = if decide (is_Some (macros s !! guard))
    then Done () (PPState (macros s) ({[file]} ∪ once s) (emitted s))
    else body (PPState (<[guard := []]> (macros s)) ({[file]} ∪ once s)
                       (emitted s)).
Proof.
  erewrite bind_done by reflexivity. unfold pp_ifndef.
  erewrite bind_done by reflexivity. simpl.
  case_bool_decide as Hdef.
  - by rewrite decide_True.
  - rewrite decide_False by done.
    erewrite bind_done; [done|].
    rewrite define_fresh; [done|]. by apply eq_None_not_Some.
Qed.

(** C8. When test.h is processed, either its guard was defined and nothing
    but a [#pragma once] mark changes, or the state goes through the guard
    being defined, config.h, the two output flags being resolved, gtest.h
    and gmock.h, in this order; when basis.h is processed, either its
    guard was defined and nothing changes, or the state goes through the
    guard being defined, CmdLine.h, config.h and path.h.  The steps that
    are the headers' own emit no token and touch no macro but the guard
    and the two output flags: every declaration comes from an included
    file. *)
Theorem umbrella_headers_add_nothing s s' :
  (test_h ce config_h gtest_h gmock_h s = Done () s' →
   (is_Some (macros s !! SBIA_BASIS_TEST_H_) ∧ changes_only ∅ s s') ∨
   ∃ s1 s2 s3 s4,
     changes_only {[SBIA_BASIS_TEST_H_]} s s1 ∧
     pp_include "sbia/basis/config.h" config_h s1 = Done () s2 ∧
     changes_only {[GTEST_USE_OWN_TR1_TUPLE; GTEST_HAS_PTHREAD]} s2 s3 ∧
     pp_include "sbia/basis/gtest/gtest.h" gtest_h s3 = Done () s4 ∧
     pp_include "sbia/basis/gmock/gmock.h" gmock_h s4 = Done () s') ∧
  (basis_h config_h cmdline_h path_h s = Done () s' →
   (is_Some (macros s !! SBIA_BASIS_H_) ∧ changes_only ∅ s s') ∨
   ∃ s1 s2 s3,
     changes_only {[SBIA_BASIS_H_]} s s1 ∧
     pp_include "sbia/tclap/CmdLine.h" cmdline_h s1 = Done () s2 ∧
     pp_include "sbia/basis/config.h" config_h s2 = Done () s3 ∧
     pp_include "sbia/basis/path.h" path_h s3 = Done () s').
Proof.
  assert (∀ guard file,
    changes_only {[guard]} s
      (PPState (<[guard := []]> (macros s)) ({[file]} ∪ once s) (emitted s)))
    as Hopen.
  { intros guard file. repeat split; simpl; [set_solver|].
    intros x Hx. apply lookup_insert_ne. set_solver. }
  split; intros Hrun.
  - unfold test_h in Hrun. rewrite guarded_header in Hrun.
    case_decide as Hdef.
    + left. injection Hrun as <-. split; [done|].
      repeat split; simpl; set_solver.
    + right.
      apply bind_inv in Hrun as ([] & s2 & Hconfig & Hrun).
      apply bind_inv in Hrun as ([] & s3 & Hresolve & Hrun).
      apply bind_inv in Hrun as ([] & s4 & Hgtest & Hgmock).
      eexists _, s2, s3, s4. split; [apply Hopen|].
      split; [done|]. split; [by apply resolver_frame|]. done.
  - unfold basis_h in Hrun. rewrite guarded_header in Hrun.
    case_decide as Hdef.
    + left. injection Hrun as <-. split; [done|].
      repeat split; simpl; set_solver.
    + right.
      apply bind_inv in Hrun as ([] & s2 & Hcmdline & Hrun).
      apply bind_inv in Hrun as ([] & s3 & Hconfig & Hpath).
      eexists _, s2, s3. split; [apply Hopen|]. done.
Qed.

Lemma keeps_guard_include file h :
  keeps_guard h → keeps_guard (pp_include file h).
Proof.
  intros Hh s s' Hrun Hdef. unfold pp_include in Hrun.
  case_decide; [by injection Hrun as <- | by eapply Hh].
Qed.

Lemma keeps_guard_resolver : keeps_guard (resolver ce).
Proof.
  intros s s' Hrun Hdef. apply resolver_frame in Hrun as (_ & _ & Hm).
  rewrite Hm; [done|].
  rewrite elem_of_union, !elem_of_singleton. by intros [|].
Qed.

(** C9. Provided the included files do not undefine the guard, one
    processing of test.h leaves SBIA_BASIS_TEST_H_ defined; and in every
    state in which the guard is defined, processing test.h again completes
    without running the resolver or any included file: the macro table,
    the input and output flags with it, and the emitted tokens stay as
    they are, even where the input flags have changed in between.  With
    [#pragma once] honoured the second [#include] does not even open the
    file. *)
Theorem guard_skips_later_inclusions s s1 :
  keeps_guard config_h → keeps_guard gtest_h → keeps_guard gmock_h →
  test_h ce config_h gtest_h gmock_h s = Done () s1 →
  is_Some (macros s1 !! SBIA_BASIS_TEST_H_) ∧
  (∀ s2, is_Some (macros s2 !! SBIA_BASIS_TEST_H_) →
     test_h ce config_h gtest_h gmock_h s2
     = Done () (PPState (macros s2) ({[test_h_file]} ∪ once s2) (emitted s2))) ∧
  (∀ s2, test_h_file ∈ once s2 →
     pp_include test_h_file (test_h ce config_h gtest_h gmock_h) s2
     = Done () s2).
Proof.
  intros Hconfig Hgtest Hgmock Hrun. split; [|split].
  - unfold test_h in Hrun. rewrite guarded_header in Hrun.
    case_decide as Hdef; [by injection Hrun as <-|].
    apply bind_inv in Hrun as ([] & s2 & Hc & Hrun).
    apply bind_inv in Hrun as ([] & s3 & Hr & Hrun).
    apply bind_inv in Hrun as ([] & s4 & Hgt & Hgm).
    eapply (keeps_guard_include _ _ Hgmock); [exact Hgm|].
    eapply (keeps_guard_include _ _ Hgtest); [exact Hgt|].
    eapply keeps_guard_resolver; [exact Hr|].
    eapply (keeps_guard_include _ _ Hconfig); [exact Hc|].
    simpl. rewrite lookup_insert_eq. eauto.
  - intros s2 Hdef. unfold test_h. rewrite guarded_header.
    by rewrite decide_True.
  - intros s2 Hin. unfold pp_include. by rewrite decide_True.
Qed.

End Headers.

(** ** The claims at concrete macro tables *)

(** Side conditions at a concrete table: a range, or a lookup to run. *)
Ltac at_table :=
  first [ exact I | unfold representable; lia | vm_compute; reflexivity ].

Lemma resolver_truth_table_witness :
  outputs (resolver reject_compound tuple_without_pthread)
    = Some (table_outputs true false) ∧
  truth_table true false = (Z.b2z (negb true), Z.b2z false).
Proof.
  apply (resolver_truth_table reject_compound tuple_without_pthread true false);
    vm_compute; reflexivity.
Defined.

(** C2 as stated fails where an input flag is defined with an empty
    replacement list: [#if HAVE_PTHREAD] is then an [#if] without an
    expression, the translation stops and no output flag is resolved. *)
Lemma empty_definition_stops_resolver :
  resolver reject_compound pthread_defined_empty
    = Failed if_without_expression ∧
  ¬ ∃ s', resolver reject_compound pthread_defined_empty = Done () s' ∧
          zero_or_one s' GTEST_USE_OWN_TR1_TUPLE ∧
          zero_or_one s' GTEST_HAS_PTHREAD.
Proof.
  assert (resolver reject_compound pthread_defined_empty
          = Failed if_without_expression) as Hfail
    by (vm_compute; reflexivity).
  split; [done|]. intros (s' & Hrun & _). congruence.
Qed.

Lemma outputs_zero_or_one_witness :
  ∃ s', resolver reject_compound tuple_without_pthread = Done () s' ∧
        zero_or_one s' GTEST_USE_OWN_TR1_TUPLE ∧
        zero_or_one s' GTEST_HAS_PTHREAD.
Proof.
  apply (proj1 (outputs_zero_or_one reject_compound tuple_without_pthread)
           (SetTo 1) (SetTo 0)); vm_compute; reflexivity.
Defined.




Lemma resolver_total_witness :
  ∃ s', resolver reject_compound (initial []) = Done () s' ∧
        is_Some (macros s' !! GTEST_USE_OWN_TR1_TUPLE) ∧
        is_Some (macros s' !! GTEST_HAS_PTHREAD).
Proof.
  apply (resolver_total reject_compound (initial []) Unset Unset);
    vm_compute; reflexivity.
Defined.

Lemma resolver_depends_on_inputs_only_witness :
  outputs (resolver reject_compound tuple_without_pthread)
    = outputs (resolver reject_compound predefined_outputs) ∧
  is_Some (outputs (resolver reject_compound tuple_without_pthread)).
Proof.
  apply (resolver_depends_on_inputs_only reject_compound
           tuple_without_pthread predefined_outputs (SetTo 1) (SetTo 0));
    vm_compute; reflexivity.
Defined.

Lemma umbrella_headers_add_nothing_witness :
  test_h reject_compound skip skip skip tuple_without_pthread
    = Done () tuple_without_pthread_tested ∧
  ((is_Some (macros tuple_without_pthread !! SBIA_BASIS_TEST_H_) ∧
    changes_only ∅ tuple_without_pthread tuple_without_pthread_tested) ∨
   ∃ s1 s2 s3 s4,
     changes_only {[SBIA_BASIS_TEST_H_]} tuple_without_pthread s1 ∧
     pp_include "sbia/basis/config.h" skip s1 = Done () s2 ∧
     changes_only {[GTEST_USE_OWN_TR1_TUPLE; GTEST_HAS_PTHREAD]} s2 s3 ∧
     pp_include "sbia/basis/gtest/gtest.h" skip s3 = Done () s4 ∧
     pp_include "sbia/basis/gmock/gmock.h" skip s4
       = Done () tuple_without_pthread_tested).
Proof.
  assert (test_h reject_compound skip skip skip tuple_without_pthread
          = Done () tuple_without_pthread_tested) as Hrun
    by (vm_compute; reflexivity).
  split; [exact Hrun|].
  exact (proj1 (umbrella_headers_add_nothing reject_compound
                  skip skip skip skip skip
                  tuple_without_pthread tuple_without_pthread_tested) Hrun).
Defined.

Lemma keeps_guard_skip : keeps_guard skip.
Proof. intros s s' [= <-] Hdef. exact Hdef. Defined.

Lemma guard_skips_later_inclusions_witness :
  test_h reject_compound skip skip skip tuple_without_pthread
    = Done () tuple_without_pthread_tested ∧
  is_Some (macros tuple_without_pthread_tested !! SBIA_BASIS_TEST_H_) ∧
  (∀ s2, is_Some (macros s2 !! SBIA_BASIS_TEST_H_) →
     test_h reject_compound skip skip skip s2
     = Done () (PPState (macros s2) ({[test_h_file]} ∪ once s2) (emitted s2))) ∧
  (∀ s2, test_h_file ∈ once s2 →
     pp_include test_h_file (test_h reject_compound skip skip skip) s2
     = Done () s2).
Proof.
  assert (test_h reject_compound skip skip skip tuple_without_pthread
          = Done () tuple_without_pthread_tested) as Hrun
    by (vm_compute; reflexivity).
  split; [exact Hrun|].
  exact (guard_skips_later_inclusions reject_compound skip skip skip
           tuple_without_pthread tuple_without_pthread_tested
           keeps_guard_skip keeps_guard_skip keeps_guard_skip Hrun).
Defined.


(** Two more tokens that are not numbers and do not read as false: the
    keyword [true], and the name of a macro defined as 1. *)
Example keyword_true_reads_true :
  outputs (resolver reject_compound pthread_keyword_true)
    = Some (Some [TNum 1], Some [TNum 1]).
Proof. vm_compute. reflexivity. Qed.

Example named_constant_reads_true :
  outputs (resolver reject_compound pthread_named_constant)
    = Some (Some [TNum 1], Some [TNum 1]).
Proof. vm_compute. reflexivity. Qed.

(** Beyond 64 bits a nonzero integer need not read as true:
    18446744073709551616 reads as 0. *)
Example two_to_64_reads_false :
  outputs (resolver reject_compound pthread_two_to_64)
    = Some (Some [TNum 1], Some [TNum 0]).
Proof. vm_compute. reflexivity. Qed.



(** C7 as stated fails where an input flag is a name: the two states
    below agree on HAVE_TR1_TUPLE (undefined) and on HAVE_PTHREAD (defined
    as YES), and the resolver leaves GTEST_HAS_PTHREAD at 1 in the one,
    where YES is a macro for 1, and at 0 in the other, where it is not a
    macro. *)
Lemma named_flag_depends_on_other_macro :
  macros pthread_named_constant !! HAVE_TR1_TUPLE
    = macros pthread_name_only !! HAVE_TR1_TUPLE ∧
  macros pthread_named_constant !! HAVE_PTHREAD
    = macros pthread_name_only !! HAVE_PTHREAD ∧
  outputs (resolver reject_compound pthread_named_constant)
    = Some (Some [TNum 1], Some [TNum 1]) ∧
  outputs (resolver reject_compound pthread_name_only)
    = Some (Some [TNum 1], Some [TNum 0]) ∧
  outputs (resolver reject_compound pthread_named_constant)
    ≠ outputs (resolver reject_compound pthread_name_only).
Proof.
  assert (outputs (resolver reject_compound pthread_named_constant)
          = Some (Some [TNum 1], Some [TNum 1])) as Hmacro
    by (vm_compute; reflexivity).
  assert (outputs (resolver reject_compound pthread_name_only)
          = Some (Some [TNum 1], Some [TNum 0])) as Hname
    by (vm_compute; reflexivity).
  split; [vm_compute; reflexivity|]. split; [vm_compute; reflexivity|].
  split; [exact Hmacro|]. split; [exact Hname|].
  rewrite Hmacro, Hname. intros [=].
Qed.

(** * Further properties of the two headers *)

(** ** More on macro replacement of a flag *)

Lemma flat_map_expand_inert n (m : gmap string (list token)) hide body :
  Forall (λ t, ∀ y, t ≠ TIdent y) body →
  flat_map (expand n m hide) body = body.
Proof.
  induction 1 as [|t body Ht _ IH]; [done|]. simpl. rewrite IH.
  destruct t as [|y| |]; try (by destruct n). by destruct (Ht y).
Qed.

Lemma expand_all_not_an_expression (m : gmap string (list token)) x body :
  m !! x = Some body → not_an_expression body →
  expand_all m [TIdent x] = body.
Proof.
  intros Hx Hbody. unfold expand_all.
  destruct (size_lookup_pos m x _ Hx) as [n ->]. simpl.
  rewrite decide_False by apply not_elem_of_empty. rewrite Hx, app_nil_r.
  apply flat_map_expand_inert.
  destruct body as [|[] []]; try done; by repeat constructor.
Qed.


Section Further.

Context (ce : list token → option Z).
Context (config_h gtest_h gmock_h cmdline_h path_h : pp unit).

Lemma controlling_value_diagnostic ts e :
  controlling_value ce ts = inl e → if_diagnostic e.
Proof.
  unfold controlling_value, if_diagnostic.
  repeat case_match; intros [= <-]; eauto.
Qed.


Lemma flag_block_failed x flag on off s e :
  (pp_ifdef x (pp_undef x) ;;
   pp_if ce [TIdent flag] (pp_define x on) (pp_define x off)) s
  = Failed e →
  pp_condition ce [TIdent flag] (set_macro x None s) = Failed e.
Proof.
  intros Hrun.
  erewrite bind_done in Hrun by apply guarded_undef.
  unfold pp_if, mbind, pp_bind in Hrun.
  destruct (pp_condition _ _ _) as [c s1|e'] eqn:Hc; [|by injection Hrun as ->].
  assert (s1 = set_macro x None s) as ->.
  { unfold pp_condition in Hc. by repeat case_match; simplify_eq. }
  assert (macros (set_macro x None s) !! x = None) as Hfresh
    by apply lookup_delete_eq.
  destruct c; by rewrite define_fresh in Hrun.
Qed.

Lemma condition_failed_diagnostic ts s e :
  pp_condition ce ts s = Failed e → if_diagnostic e.
Proof.
  unfold pp_condition.
  destruct (controlling_value _ _) as [e'|z] eqn:Hc; [|done].
  intros [= <-]. by eapply controlling_value_diagnostic.
Qed.

Lemma flag_block_stops x flag on off s e :
  pp_condition ce [TIdent flag] (set_macro x None s) = Failed e →
  (pp_ifdef x (pp_undef x) ;;
   pp_if ce [TIdent flag] (pp_define x on) (pp_define x off)) s
  = Failed e.
Proof.
  intros Hc. erewrite bind_done by apply guarded_undef.
  unfold pp_if, mbind, pp_bind. by rewrite Hc.
Qed.

Lemma resolver_failed_diagnostic s e :
  resolver ce s = Failed e → if_diagnostic e.
Proof.
  unfold resolver, mbind, pp_bind.
  destruct (resolve_tr1_tuple ce s) as [[] s1|e'] eqn:Htuple; intros Hrun.
  - apply flag_block_failed in Hrun. by eapply condition_failed_diagnostic.
  - injection Hrun as ->. apply flag_block_failed in Htuple.
    by eapply condition_failed_diagnostic.
Qed.

Lemma condition_not_an_expression flag body s :
  macros s !! flag = Some body → not_an_expression body →
  ∃ e, pp_condition ce [TIdent flag] s = Failed e.
Proof.
  intros Hflag Hbody. unfold pp_condition.
  rewrite (expand_all_not_an_expression _ _ body) by done.
  destruct body as [|[] []]; try done; simpl; eauto.
Qed.


Lemma include_failed file h s e :
  pp_include file h s = Failed e → h s = Failed e.
Proof. unfold pp_include. by case_decide. Qed.

(** ** The resolver, test.h lines 29 to 46 *)

(** X1. The resolver stops with a diagnostic only at one of its two
    [#if] lines: at [#if HAVE_TR1_TUPLE], or, that one passed, at
    [#if HAVE_PTHREAD]; the diagnostic is one of [#if].  Neither [#define]
    is ever rejected as a redefinition, whatever the macro table. *)
Theorem resolver_stops_only_at_if s e :
  resolver ce s = Failed e →
  if_diagnostic e ∧
  (pp_condition ce [TIdent HAVE_TR1_TUPLE]
     (set_macro GTEST_USE_OWN_TR1_TUPLE None s) = Failed e ∨
   ∃ s1, resolve_tr1_tuple ce s = Done () s1 ∧
         pp_condition ce [TIdent HAVE_PTHREAD]
           (set_macro GTEST_HAS_PTHREAD None s1) = Failed e).
Proof.
  intros Hrun. split; [by eapply resolver_failed_diagnostic|].
  unfold resolver, mbind, pp_bind in Hrun.
  destruct (resolve_tr1_tuple ce s) as [[] s1|e'] eqn:Htuple.
  - right. exists s1. split; [done|]. by apply flag_block_failed in Hrun.
  - left. injection Hrun as ->. by apply flag_block_failed in Htuple.
Qed.

(** X2. When HAVE_TR1_TUPLE or HAVE_PTHREAD is defined with a replacement
    list that is no expression (empty, a lone string literal, a lone
    operator), the resolver does not complete: it stops with a
    diagnostic. *)
Theorem malformed_flag_stops_resolver s body :
  not_an_expression body →
  macros s !! HAVE_TR1_TUPLE = Some body ∨
  macros s !! HAVE_PTHREAD = Some body →
  ∃ e, resolver ce s = Failed e.
Proof.
  intros Hbody [Htuple | Hpthread]; unfold resolver, mbind, pp_bind.
  - destruct (condition_not_an_expression HAVE_TR1_TUPLE body
                (set_macro GTEST_USE_OWN_TR1_TUPLE None s)) as [e He];
      [by rewrite set_macro_other | done |].
    unfold resolve_tr1_tuple. rewrite (flag_block_stops _ _ _ _ _ _ He).
    eauto.
  - destruct (resolve_tr1_tuple ce s) as [[] s1|e'] eqn:Hrun; [|eauto].
    apply flag_block_inv in Hrun as [c ->].
    destruct (condition_not_an_expression HAVE_PTHREAD body
                (set_macro GTEST_HAS_PTHREAD None
                   (set_macro GTEST_USE_OWN_TR1_TUPLE
                      (Some (if c then [TNum 0] else [TNum 1])) s)))
      as [e He]; [by rewrite !set_macro_other | done |].
    unfold resolve_pthread. rewrite (flag_block_stops _ _ _ _ _ _ He).
    eauto.
Qed.


(** X4. The two blocks of the resolver do not depend on their order: with
    each input flag undefined or an integer, resolving the pthread flag
    first and the tuple flag second ends in the state the resolver, as
    written, ends in. *)
Theorem resolver_blocks_commute s a b :
  macros s !! HAVE_TR1_TUPLE = flag_body a →
  macros s !! HAVE_PTHREAD = flag_body b →
  (resolve_pthread ce ;; resolve_tr1_tuple ce) s = resolver ce s.
Proof.
  intros Ha Hb. rewrite (resolver_settings ce s a b) by done.
  erewrite bind_done.
  2:{ unfold resolve_pthread.
      by apply (flag_block ce _ _ _ _ _ (reads b)), reads_as_setting. }
  unfold resolve_tr1_tuple.
  erewrite (flag_block ce _ _ _ _ _ (reads a)); try done.
  2:{ apply reads_as_setting. by rewrite set_macro_other. }
  unfold resolved, set_macro, literal. simpl. f_equal. f_equal.
  rewrite insert_insert_ne by done. by destruct (reads a), (reads b).
Qed.

(** ** test.h and basis.h as a whole *)

Lemma keeps_defined_include x file h :
  keeps_defined x h → keeps_defined x (pp_include file h).
Proof.
  intros Hh s s' Hrun Hdef. unfold pp_include in Hrun.
  case_decide; [by injection Hrun as <- | by eapply Hh].
Qed.

Lemma keeps_once_include file h :
  keeps_once h → keeps_once (pp_include file h).
Proof.
  intros Hh s s' Hrun. unfold pp_include in Hrun.
  case_decide; [by injection Hrun as <- | by eapply Hh].
Qed.

Lemma keeps_once_resolver : keeps_once (resolver ce).
Proof. intros s s' Hrun. by apply resolver_frame in Hrun as (_ & Ho & _). Qed.

Lemma guarded_header_entered file guard body s :
  macros s !! guard = None →
  (pp_pragma_once file ;; pp_ifndef guard (pp_define guard [] ;; body)) s
  = body (entered file guard s).
Proof.
  intros Hguard. rewrite guarded_header, decide_False; [done|].
  rewrite Hguard. by intros [? ?].
Qed.

(** X5. test.h, entered with its guard undefined, reads the input flags
    as config.h leaves them and hands gtest.h a state with both output
    flags resolved from them: when config.h completes with each input flag
    undefined or an integer of the 64-bit signed range, and gtest.h and
    gmock.h complete in turn from the resolved state, test.h completes in
    the state gmock.h ends in. *)
Theorem test_h_runs_in_order s s2 a b s4 s' :
  macros s !! SBIA_BASIS_TEST_H_ = None →
  pp_include "sbia/basis/config.h" config_h
    (entered test_h_file SBIA_BASIS_TEST_H_ s) = Done () s2 →
  macros s2 !! HAVE_TR1_TUPLE = flag_body a →
  macros s2 !! HAVE_PTHREAD = flag_body b →
  representable a → representable b →
  pp_include "sbia/basis/gtest/gtest.h" gtest_h
    (resolved (truth a) (truth b) s2) = Done () s4 →
  pp_include "sbia/basis/gmock/gmock.h" gmock_h s4 = Done () s' →
  test_h ce config_h gtest_h gmock_h s = Done () s'.
Proof.
  intros Hguard Hconfig Ha Hb Hra Hrb Hgtest Hgmock.
  unfold test_h. rewrite guarded_header_entered by done.
  erewrite bind_done by exact Hconfig.
  erewrite bind_done by (by apply resolver_settings_representable).
  by erewrite bind_done by exact Hgtest.
Qed.

(** X6. gtest.h is never opened with an output flag unresolved: whenever
    test.h, entered with its guard undefined, completes, the state in
    which gtest.h was included had GTEST_USE_OWN_TR1_TUPLE and
    GTEST_HAS_PTHREAD each defined as the literal 0 or 1, and gmock.h was
    included after it. *)
Theorem gtest_sees_resolved_flags s s' :
  macros s !! SBIA_BASIS_TEST_H_ = None →
  test_h ce config_h gtest_h gmock_h s = Done () s' →
  ∃ s3 s4,
    zero_or_one s3 GTEST_USE_OWN_TR1_TUPLE ∧
    zero_or_one s3 GTEST_HAS_PTHREAD ∧
    pp_include "sbia/basis/gtest/gtest.h" gtest_h s3 = Done () s4 ∧
    pp_include "sbia/basis/gmock/gmock.h" gmock_h s4 = Done () s'.
Proof.
  intros Hguard Hrun. unfold test_h in Hrun.
  rewrite guarded_header_entered in Hrun by done.
  apply bind_inv in Hrun as ([] & s2 & Hconfig & Hrun).
  apply bind_inv in Hrun as ([] & s3 & Hresolve & Hrun).
  apply bind_inv in Hrun as ([] & s4 & Hgtest & Hgmock).
  exists s3, s4. by apply resolver_done_zero_or_one in Hresolve as [? ?].
Qed.

(** X7. When test.h stops with a diagnostic, its guard was undefined and
    the run stopped at one of four places, each entered from the state
    the one before left: in config.h, entered right after the guard was
    defined; in the resolver, run on the state config.h left, and then
    with a diagnostic of [#if]; in gtest.h, entered on the state the
    resolver left; or in gmock.h, entered on the state gtest.h left.  The
    header's own [#pragma once] and [#define] never stop it. *)
Theorem test_h_failure_sources s e :
  test_h ce config_h gtest_h gmock_h s = Failed e →
  macros s !! SBIA_BASIS_TEST_H_ = None ∧
  (config_h (entered test_h_file SBIA_BASIS_TEST_H_ s) = Failed e ∨
   ∃ s2,
     pp_include "sbia/basis/config.h" config_h
       (entered test_h_file SBIA_BASIS_TEST_H_ s) = Done () s2 ∧
     ((resolver ce s2 = Failed e ∧ if_diagnostic e) ∨
      ∃ s3, resolver ce s2 = Done () s3 ∧
        (gtest_h s3 = Failed e ∨
         ∃ s4, pp_include "sbia/basis/gtest/gtest.h" gtest_h s3 = Done () s4 ∧
               gmock_h s4 = Failed e))).
Proof.
  unfold test_h. rewrite guarded_header.
  case_decide as Hdef; [done|]. intros Hrun. split.
  { apply eq_None_not_Some. exact Hdef. }
  change (PPState (<[SBIA_BASIS_TEST_H_:=[]]> (macros s))
            ({[test_h_file]} ∪ once s) (emitted s))
    with (entered test_h_file SBIA_BASIS_TEST_H_ s) in Hrun.
  unfold mbind, pp_bind in Hrun.
  destruct (pp_include _ config_h _) as [[] s2|e2] eqn:Hconfig.
  2:{ injection Hrun as ->. left. by apply include_failed in Hconfig. }
  right. exists s2. split; [done|].
  destruct (resolver ce s2) as [[] s3|e3] eqn:Hresolve.
  2:{ injection Hrun as ->. left.
      split; [done | by eapply resolver_failed_diagnostic]. }
  right. exists s3. split; [done|].
  destruct (pp_include _ gtest_h _) as [[] s4|e4] eqn:Hgtest.
  2:{ injection Hrun as ->. left. by apply include_failed in Hgtest. }
  right. exists s4. split; [done|]. by apply include_failed in Hrun.
Qed.

(** X8. basis.h has no failure of its own: it stops with a diagnostic
    only where CmdLine.h, config.h or path.h stops with it. *)
Theorem basis_h_failure_sources s e :
  basis_h config_h cmdline_h path_h s = Failed e →
  ∃ s0, cmdline_h s0 = Failed e ∨ config_h s0 = Failed e ∨
        path_h s0 = Failed e.
Proof.
  unfold basis_h. rewrite guarded_header.
  case_decide as Hdef; [done|].
  unfold mbind, pp_bind.
  destruct (pp_include _ cmdline_h _) as [[] s2|e2] eqn:Hcmdline.
  2:{ intros [= ->]. apply include_failed in Hcmdline. eauto. }
  destruct (pp_include _ config_h _) as [[] s3|e3] eqn:Hconfig.
  2:{ intros [= ->]. apply include_failed in Hconfig. eauto. }
  intros Hpath. apply include_failed in Hpath. eauto.
Qed.

(** X9. The include guard of basis.h: provided the included files do not
    undefine it, one processing of basis.h leaves SBIA_BASIS_H_ defined;
    and in every state in which it is defined, processing basis.h again
    completes without opening any included file, the macro table and the
    emitted tokens staying as they are. *)
Theorem basis_guard_skips_later_inclusions s s1 :
  keeps_defined SBIA_BASIS_H_ cmdline_h →
  keeps_defined SBIA_BASIS_H_ config_h →
  keeps_defined SBIA_BASIS_H_ path_h →
  basis_h config_h cmdline_h path_h s = Done () s1 →
  is_Some (macros s1 !! SBIA_BASIS_H_) ∧
  ∀ s2, is_Some (macros s2 !! SBIA_BASIS_H_) →
    basis_h config_h cmdline_h path_h s2
    = Done () (PPState (macros s2) ({[basis_h_file]} ∪ once s2) (emitted s2)).
Proof.
  intros Hcmdline Hconfig Hpath Hrun. split.
  - unfold basis_h in Hrun. rewrite guarded_header in Hrun.
    case_decide as Hdef; [by injection Hrun as <-|].
    apply bind_inv in Hrun as ([] & s2 & Hc & Hrun).
    apply bind_inv in Hrun as ([] & s3 & Hg & Hp).
    eapply (keeps_defined_include _ _ _ Hpath); [exact Hp|].
    eapply (keeps_defined_include _ _ _ Hconfig); [exact Hg|].
    eapply (keeps_defined_include _ _ _ Hcmdline); [exact Hc|].
    simpl. rewrite lookup_insert_eq. eauto.
  - intros s2 Hdef. unfold basis_h. rewrite guarded_header.
    by rewrite decide_True.
Qed.

(** X10. [#pragma once] is the first directive of both headers: provided
    no included file takes a mark back, each header that completes has
    left its own file marked, and an [#include] of it from the state it
    ended in is skipped altogether. *)
Theorem pragma_once_marks_headers s s1 :
  keeps_once config_h → keeps_once gtest_h → keeps_once gmock_h →
  keeps_once cmdline_h → keeps_once path_h →
  (test_h ce config_h gtest_h gmock_h s = Done () s1 →
   test_h_file ∈ once s1 ∧
   pp_include test_h_file (test_h ce config_h gtest_h gmock_h) s1
   = Done () s1) ∧
  (basis_h config_h cmdline_h path_h s = Done () s1 →
   basis_h_file ∈ once s1 ∧
   pp_include basis_h_file (basis_h config_h cmdline_h path_h) s1
   = Done () s1).
Proof.
  intros Hconfig Hgtest Hgmock Hcmdline Hpath.
  assert (∀ file t, file ∈ once t →
            ∀ h, pp_include file h t = Done () t) as Hskip.
  { intros file t Hin h. unfold pp_include. by rewrite decide_True. }
  assert (∀ file, file ∈ ({[file]} ∪ once s : gset string)) as Hmark.
  { intros file. apply elem_of_union_l, elem_of_singleton. done. }
  split; intros Hrun.
  - assert (test_h_file ∈ once s1) as Hin; [|by auto].
    unfold test_h in Hrun. rewrite guarded_header in Hrun.
    case_decide as Hdef; [injection Hrun as <-; apply Hmark|].
    apply bind_inv in Hrun as ([] & s2 & Hc & Hrun).
    apply bind_inv in Hrun as ([] & s3 & Hr & Hrun).
    apply bind_inv in Hrun as ([] & s4 & Hgt & Hgm).
    apply (keeps_once_include _ _ Hgmock) in Hgm.
    apply (keeps_once_include _ _ Hgtest) in Hgt.
    apply keeps_once_resolver in Hr.
    apply (keeps_once_include _ _ Hconfig) in Hc.
    apply Hgm, Hgt, Hr, Hc. simpl. apply Hmark.
  - assert (basis_h_file ∈ once s1) as Hin; [|by auto].
    unfold basis_h in Hrun. rewrite guarded_header in Hrun.
    case_decide as Hdef; [injection Hrun as <-; apply Hmark|].
    apply bind_inv in Hrun as ([] & s2 & Hc & Hrun).
    apply bind_inv in Hrun as ([] & s3 & Hg & Hp).
    apply (keeps_once_include _ _ Hpath) in Hp.
    apply (keeps_once_include _ _ Hconfig) in Hg.
    apply (keeps_once_include _ _ Hcmdline) in Hc.
    apply Hp, Hg, Hc. simpl. apply Hmark.
Qed.

Lemma guarded_header_again file guard body s :
  is_Some (macros s !! guard) → file ∈ once s →
  (pp_pragma_once file ;; pp_ifndef guard (pp_define guard [] ;; body)) s
  = Done () s.
Proof.
  intros Hdef Hin. rewrite guarded_header, decide_True by done.
  destruct s as [m o t]. simpl in *. do 2 f_equal.
  apply leibniz_equiv. intros x. rewrite elem_of_union, elem_of_singleton.
  split; [by intros [->|] | auto].
Qed.

Lemma guarded_header_done file guard body s s1 :
  keeps_defined guard body → keeps_once body →
  (pp_pragma_once file ;; pp_ifndef guard (pp_define guard [] ;; body)) s
  = Done () s1 →
  is_Some (macros s1 !! guard) ∧ file ∈ once s1.
Proof.
  intros Hguard Honce Hrun. rewrite guarded_header in Hrun.
  assert (file ∈ ({[file]} ∪ once s : gset string)) as Hmark
    by apply elem_of_union_l, elem_of_singleton_2, eq_refl.
  case_decide as Hdef; [by injection Hrun as <-|]. split.
  - eapply Hguard; [exact Hrun|]. simpl. rewrite lookup_insert_eq. eauto.
  - eapply Honce; [exact Hrun|]. exact Hmark.
Qed.

Lemma keeps_defined_seq x (h1 h2 : pp unit) :
  keeps_defined x h1 → keeps_defined x h2 → keeps_defined x (h1 ;; h2).
Proof.
  intros H1 H2 s s' Hrun Hdef.
  apply bind_inv in Hrun as ([] & s1 & Hrun1 & Hrun2). eauto.
Qed.

Lemma keeps_once_seq (h1 h2 : pp unit) :
  keeps_once h1 → keeps_once h2 → keeps_once (h1 ;; h2).
Proof.
  intros H1 H2 s s' Hrun.
  apply bind_inv in Hrun as ([] & s1 & Hrun1 & Hrun2).
  transitivity (once s1); eauto.
Qed.

Lemma keeps_defined_resolver x :
  x ≠ GTEST_USE_OWN_TR1_TUPLE → x ≠ GTEST_HAS_PTHREAD →
  keeps_defined x (resolver ce).
Proof.
  intros H1 H2 s s' Hrun Hdef. apply resolver_frame in Hrun as (_ & _ & Hm).
  rewrite Hm; [done|].
  rewrite elem_of_union, !elem_of_singleton. by intros [|].
Qed.

(** X11. Each header processed twice in a row is the header processed
    once: provided the included files undefine neither guard and take
    back no [#pragma once] mark, the state test.h (basis.h) completes in
    is left exactly as it is by processing test.h (basis.h) again, by
    the include guard alone. *)
Theorem headers_twice_as_once s s1 :
  keeps_guards_and_marks config_h → keeps_guards_and_marks gtest_h →
  keeps_guards_and_marks gmock_h → keeps_guards_and_marks cmdline_h →
  keeps_guards_and_marks path_h →
  (test_h ce config_h gtest_h gmock_h s = Done () s1 →
   (test_h ce config_h gtest_h gmock_h ;;
    test_h ce config_h gtest_h gmock_h) s = Done () s1) ∧
  (basis_h config_h cmdline_h path_h s = Done () s1 →
   (basis_h config_h cmdline_h path_h ;;
    basis_h config_h cmdline_h path_h) s = Done () s1).
Proof.
  intros (Hc1 & Hc2 & Hc3) (Hgt1 & _ & Hgt3) (Hgm1 & _ & Hgm3)
    (_ & Hcl2 & Hcl3) (_ & Hp2 & Hp3).
  split; intros Hrun; erewrite bind_done by exact Hrun.
  - unfold test_h in *.
    apply guarded_header_done in Hrun as [Hdef Hin].
    + by apply guarded_header_again.
    + apply keeps_defined_seq; [by apply keeps_defined_include|].
      apply keeps_defined_seq; [by apply keeps_defined_resolver|].
      apply keeps_defined_seq; by apply keeps_defined_include.
    + apply keeps_once_seq; [by apply keeps_once_include|].
      apply keeps_once_seq; [apply keeps_once_resolver|].
      apply keeps_once_seq; by apply keeps_once_include.
  - unfold basis_h in *.
    apply guarded_header_done in Hrun as [Hdef Hin].
    + by apply guarded_header_again.
    + apply keeps_defined_seq; [by apply keeps_defined_include|].
      apply keeps_defined_seq; by apply keeps_defined_include.
    + apply keeps_once_seq; [by apply keeps_once_include|].
      apply keeps_once_seq; by apply keeps_once_include.
Qed.

End Further.

(** ** The further properties at concrete macro tables *)

Lemma resolver_stops_only_at_if_witness :
  resolver reject_compound pthread_defined_empty
    = Failed if_without_expression ∧
  if_diagnostic if_without_expression ∧
  (pp_condition reject_compound [TIdent HAVE_TR1_TUPLE]
     (set_macro GTEST_USE_OWN_TR1_TUPLE None pthread_defined_empty)
   = Failed if_without_expression ∨
   ∃ s1, resolve_tr1_tuple reject_compound pthread_defined_empty
         = Done () s1 ∧
         pp_condition reject_compound [TIdent HAVE_PTHREAD]
           (set_macro GTEST_HAS_PTHREAD None s1)
         = Failed if_without_expression).
Proof.
  assert (resolver reject_compound pthread_defined_empty
          = Failed if_without_expression) as Hrun
    by (vm_compute; reflexivity).
  split; [exact Hrun|].
  exact (resolver_stops_only_at_if reject_compound pthread_defined_empty
           if_without_expression Hrun).
Defined.

Lemma malformed_flag_stops_resolver_witness :
  not_an_expression [TStr "yes"] ∧
  macros pthread_string_literal !! HAVE_PTHREAD = Some [TStr "yes"] ∧
  ∃ e, resolver reject_compound pthread_string_literal = Failed e.
Proof.
  assert (macros pthread_string_literal !! HAVE_PTHREAD = Some [TStr "yes"])
    as Hflag by (vm_compute; reflexivity).
  split; [exact I|]. split; [exact Hflag|].
  exact (malformed_flag_stops_resolver reject_compound
           pthread_string_literal [TStr "yes"] I (or_intror Hflag)).
Defined.


Lemma resolver_blocks_commute_witness :
  (resolve_pthread reject_compound ;; resolve_tr1_tuple reject_compound)
    tuple_without_pthread
  = resolver reject_compound tuple_without_pthread.
Proof.
  apply (resolver_blocks_commute reject_compound tuple_without_pthread
           (SetTo 1) (SetTo 0)); vm_compute; reflexivity.
Defined.

Lemma test_h_runs_in_order_witness :
  test_h reject_compound config_with_pthread skip skip (initial [])
  = Done () configured_and_tested.
Proof.
  apply (test_h_runs_in_order reject_compound config_with_pthread skip skip
           (initial []) configured (SetTo 0) (SetTo 1)
           configured_and_tested configured_and_tested); at_table.
Defined.

Lemma gtest_sees_resolved_flags_witness :
  ∃ s3 s4,
    zero_or_one s3 GTEST_USE_OWN_TR1_TUPLE ∧
    zero_or_one s3 GTEST_HAS_PTHREAD ∧
    pp_include "sbia/basis/gtest/gtest.h" skip s3 = Done () s4 ∧
    pp_include "sbia/basis/gmock/gmock.h" skip s4
    = Done () configured_and_tested.
Proof.
  apply (gtest_sees_resolved_flags reject_compound config_with_pthread
           skip skip (initial []) configured_and_tested);
    vm_compute; reflexivity.
Defined.

Lemma test_h_failure_sources_witness :
  test_h reject_compound skip skip skip pthread_defined_empty
    = Failed if_without_expression ∧
  macros pthread_defined_empty !! SBIA_BASIS_TEST_H_ = None ∧
  (skip (entered test_h_file SBIA_BASIS_TEST_H_ pthread_defined_empty)
   = Failed if_without_expression ∨
   ∃ s2,
     pp_include "sbia/basis/config.h" skip
       (entered test_h_file SBIA_BASIS_TEST_H_ pthread_defined_empty)
     = Done () s2 ∧
     ((resolver reject_compound s2 = Failed if_without_expression ∧
       if_diagnostic if_without_expression) ∨
      ∃ s3, resolver reject_compound s2 = Done () s3 ∧
        (skip s3 = Failed if_without_expression ∨
         ∃ s4, pp_include "sbia/basis/gtest/gtest.h" skip s3 = Done () s4 ∧
               skip s4 = Failed if_without_expression))).
Proof.
  assert (test_h reject_compound skip skip skip pthread_defined_empty
          = Failed if_without_expression) as Hrun
    by (vm_compute; reflexivity).
  split; [exact Hrun|].
  exact (test_h_failure_sources reject_compound skip skip skip
           pthread_defined_empty if_without_expression Hrun).
Defined.

Lemma basis_h_failure_sources_witness :
  basis_h config_with_pthread broken_file skip (initial [])
    = Failed (error_directive "X") ∧
  ∃ s0, broken_file s0 = Failed (error_directive "X") ∨
        config_with_pthread s0 = Failed (error_directive "X") ∨
        skip s0 = Failed (error_directive "X").
Proof.
  assert (basis_h config_with_pthread broken_file skip (initial [])
          = Failed (error_directive "X")) as Hrun
    by (vm_compute; reflexivity).
  split; [exact Hrun|].
  exact (basis_h_failure_sources config_with_pthread broken_file skip
           (initial []) (error_directive "X") Hrun).
Defined.

Lemma keeps_defined_skip x : keeps_defined x skip.
Proof. intros s s' [= <-] Hdef. exact Hdef. Defined.

Lemma keeps_once_skip : keeps_once skip.
Proof. intros s s' [= <-]. reflexivity. Defined.

Lemma define_keeps x body s s' :
  pp_define x body s = Done () s' →
  once s' = once s ∧ ∀ y, is_Some (macros s !! y) → is_Some (macros s' !! y).
Proof.
  intros [= <-]. simpl. split; [reflexivity|].
  intros y Hy. destruct (decide (x = y)) as [->|Hne].
  - rewrite lookup_insert_eq. eauto.
  - rewrite lookup_insert_ne by exact Hne. exact Hy.
Defined.

Lemma config_with_pthread_keeps :
  (∀ x, keeps_defined x config_with_pthread) ∧
  keeps_once config_with_pthread.
Proof.
  split; [intros x|]; intros s s' Hrun; unfold config_with_pthread in Hrun;
    apply bind_inv in Hrun as ([] & s1 & H1 & H2);
    apply define_keeps in H1 as [Ho1 Hm1];
    apply define_keeps in H2 as [Ho2 Hm2].
  - intros Hdef. apply Hm2, Hm1, Hdef.
  - rewrite Ho2, Ho1. reflexivity.
Defined.

Lemma basis_guard_skips_later_inclusions_witness :
  basis_h config_with_pthread skip skip (initial [])
    = Done () configured_basis ∧
  is_Some (macros configured_basis !! SBIA_BASIS_H_) ∧
  ∀ s2, is_Some (macros s2 !! SBIA_BASIS_H_) →
    basis_h config_with_pthread skip skip s2
    = Done () (PPState (macros s2) ({[basis_h_file]} ∪ once s2) (emitted s2)).
Proof.
  assert (basis_h config_with_pthread skip skip (initial [])
          = Done () configured_basis) as Hrun
    by (vm_compute; reflexivity).
  split; [exact Hrun|].
  exact (basis_guard_skips_later_inclusions config_with_pthread skip skip
           (initial []) configured_basis
           (keeps_defined_skip _) (proj1 config_with_pthread_keeps _)
           (keeps_defined_skip _) Hrun).
Defined.

Lemma pragma_once_marks_headers_witness :
  test_h reject_compound config_with_pthread skip skip (initial [])
    = Done () configured_and_tested ∧
  test_h_file ∈ once configured_and_tested ∧
  pp_include test_h_file
    (test_h reject_compound config_with_pthread skip skip)
    configured_and_tested
  = Done () configured_and_tested.
Proof.
  assert (test_h reject_compound config_with_pthread skip skip (initial [])
          = Done () configured_and_tested) as Hrun
    by (vm_compute; reflexivity).
  split; [exact Hrun|].
  exact (proj1 (pragma_once_marks_headers reject_compound
                  config_with_pthread skip skip skip skip
                  (initial []) configured_and_tested
                  (proj2 config_with_pthread_keeps) keeps_once_skip
                  keeps_once_skip keeps_once_skip keeps_once_skip) Hrun).
Defined.

Lemma keeps_guards_and_marks_skip : keeps_guards_and_marks skip.
Proof.
  split; [apply keeps_defined_skip|].
  split; [apply keeps_defined_skip | apply keeps_once_skip].
Defined.

Lemma keeps_guards_and_marks_config :
  keeps_guards_and_marks config_with_pthread.
Proof.
  split; [apply (proj1 config_with_pthread_keeps)|].
  split; [apply (proj1 config_with_pthread_keeps)
         | apply (proj2 config_with_pthread_keeps)].
Defined.

Lemma headers_twice_as_once_witness :
  test_h reject_compound config_with_pthread skip skip (initial [])
    = Done () configured_and_tested ∧
  (test_h reject_compound config_with_pthread skip skip ;;
   test_h reject_compound config_with_pthread skip skip) (initial [])
  = Done () configured_and_tested.
Proof.
  assert (test_h reject_compound config_with_pthread skip skip (initial [])
          = Done () configured_and_tested) as Hrun
    by (vm_compute; reflexivity).
  split; [exact Hrun|].
  exact (proj1 (headers_twice_as_once reject_compound
                  config_with_pthread skip skip skip skip
                  (initial []) configured_and_tested
                  keeps_guards_and_marks_config keeps_guards_and_marks_skip
                  keeps_guards_and_marks_skip keeps_guards_and_marks_skip
                  keeps_guards_and_marks_skip) Hrun).
Defined.
